(** * The ship-controlling bot of [bot.py]: checkpoint sequencing and sail heuristic

    The per-tick decision method [Bot.run] walks the course in order, marks
    the checkpoints the vessel is inside of as reached, stops at the first
    one that is still unreached and steers towards it, throttling the sail
    when that checkpoint is close.

    Numbers are IEEE 754 binary64 values, as Python's [float] and numpy's
    [float64] are; they are modelled by Rocq's primitive floats, whose
    operations are specified by [FloatAxioms] against [SpecFloat]. *)

From Stdlib Require Import Floats ZArith.
From stdpp Require Import base option list relations strings.

Local Open Scope float_scope.

(** Decimal literals are rounded to the nearest binary64 value, as Python
    does when it reads them. *)
#[local] Set Warnings "-inexact-float".

(** ** Data model (the dataclasses imported from [vendeeglobe]) *)

(** Modelled from the spec: the [Location] dataclass is imported from the
    [vendeeglobe] package; it carries a longitude and a latitude. *)
Module Location.
Record t := mk { longitude : float; latitude : float }.
End Location.

(** Modelled from the spec: the [Checkpoint] dataclass is imported from the
    [vendeeglobe] package; position, capture radius and the mutable
    [reached] flag, which is [False] when the checkpoint is built. *)
Module Checkpoint.
Record t := mk {
  latitude : float;
  longitude : float;
  radius : float;
  reached : bool
}.

(** [ch.reached = True] *)
Definition set_reached (ch : t) : t :=
  mk (latitude ch) (longitude ch) (radius ch) true.

(** The fields that [Bot.run] only reads. *)
Definition static (ch : t) : float * float * float :=
  (latitude ch, longitude ch, radius ch).
End Checkpoint.

(** Modelled from the spec: the [Instructions] dataclass is imported from the
    [vendeeglobe] package; every directive is optional and [Instructions()]
    leaves all of them unset. *)
Module Instructions.
Record t := mk {
  location : option Location.t;
  heading : option float;
  vector : option (float * float);
  left : option float;
  right : option float;
  sail : option float
}.

(** [Instructions()] *)
Definition empty : t := mk None None None None None None.

(** [instructions.sail = s] *)
Definition set_sail (i : t) (s : float) : t :=
  mk (location i) (heading i) (vector i) (left i) (right i) (Some s).

(** [instructions.location = loc] *)
Definition set_location (i : t) (loc : Location.t) : t :=
  mk (Some loc) (heading i) (vector i) (left i) (right i) (sail i).
End Instructions.

(** The state of a [Bot] object: [self.team] and [self.course]. *)
Record Bot := mkBot {
  team : string;
  course : list Checkpoint.t
}.

(** [Checkpoint(latitude=.., longitude=.., radius=..)]: a fresh checkpoint. *)
Definition new_checkpoint (lon lat r : float) : Checkpoint.t :=
  Checkpoint.mk lat lon r false.

(** [Bot.__init__]; [start] stands for [config.start] of the [vendeeglobe]
    package. *)
Definition Bot_init (start : Location.t) : Bot :=
  mkBot "TeamName"
    [ new_checkpoint (-11.264905) 43.797109 50;
      new_checkpoint (-57.16281) 16.79314 50;
      new_checkpoint (-60.86658) 14.33136 10;
      new_checkpoint (-75.99475) 14.88418 50;
      new_checkpoint (-80.25195) 10.05314 30;
      new_checkpoint (-79.91893) 9.34789 10;
      new_checkpoint (-79.47879) 8.92079 10;
      new_checkpoint (-79.21698) 6.81393 30;
      new_checkpoint (-150.0) 3 100;
      new_checkpoint 132.97296 2.67776 50;
      new_checkpoint 129.74323 (-2.44015) 10;
      new_checkpoint 125.12873 (-2.96691) 10;
      new_checkpoint 128.47406 (-8.21340) 50;
      new_checkpoint 128.54547 (-11.34191) 10;
      new_checkpoint 115.78259 (-14.16543) 50;
      new_checkpoint 70 (-20) 50;
      new_checkpoint 22.09 (-36.693) 50;
      new_checkpoint 12 (-36.9) 50;
      new_checkpoint (-24.97424) 14.06509 50;
      new_checkpoint (-11.13147) 45.53168 50;
      new_checkpoint (Location.longitude start) (Location.latitude start) 5 ].

(** ** Library operations used by [run] *)

(** [np.linalg.norm(speed)] on a scalar: numpy flattens the argument and
    returns [sqrt(dot(x, x))]. *)
Definition np_linalg_norm (x : float) : float := sqrt (x * x).

(** Python's [min(a, b)]: the first argument is kept unless the second
    compares strictly below it. *)
Definition py_min (a b : float) : float := if b <? a then b else a.

(** ** The decision method *)

Section Run.

(** [vendeeglobe.utils.distance_on_surface(longitude1, latitude1,
    longitude2, latitude2)]: the great-circle distance, a function of the
    package the bot is written against. *)
Variable distance_on_surface : float -> float -> float -> float -> float.

Section Tick.

Variables (dt longitude latitude speed : float).

(** [dist] of the loop body. *)
Definition dist_to (ch : Checkpoint.t) : float :=
  distance_on_surface longitude latitude
    (Checkpoint.longitude ch) (Checkpoint.latitude ch).

(** [jump = dt * np.linalg.norm(speed)] *)
Definition jump : float := dt * np_linalg_norm speed.

(** The value assigned to [instructions.sail] in the loop body (lines
    132-136).  [jump] is a numpy [float64], so the division is numpy's:
    it follows IEEE 754 (infinity or NaN on a zero divisor, with a
    warning) and raises nothing. *)
Definition sail_heuristic (ch : Checkpoint.t) : float :=
  if dist_to ch <? 2.0 * Checkpoint.radius ch + jump
  then py_min (Checkpoint.radius ch / jump) 1
  else 1.0.

(** [dist < ch.radius] *)
Definition within (ch : Checkpoint.t) : bool :=
  dist_to ch <? Checkpoint.radius ch.

(** Lines 138-139: the checkpoint after the reachability check. *)
Definition check_reached (ch : Checkpoint.t) : Checkpoint.t :=
  if within ch then Checkpoint.set_reached ch else ch.

(** The loop goes on to the next checkpoint when this one is reached after
    the check (line 140). *)
Definition passes (ch : Checkpoint.t) : bool :=
  Checkpoint.reached ch || within ch.

(** [Location(longitude=ch.longitude, latitude=ch.latitude)] *)
Definition location_of (ch : Checkpoint.t) : Location.t :=
  Location.mk (Checkpoint.longitude ch) (Checkpoint.latitude ch).

(** The [for ch in self.course] loop (lines 123-144).  The checkpoints
    are mutated in place; the function returns the course after the
    loop together with the instructions. *)
Fixpoint scan (course : list Checkpoint.t) (instructions : Instructions.t)
  : list Checkpoint.t * Instructions.t :=
  match course with
  | [] => ([], instructions)
  | ch :: rest =>
      let instructions := Instructions.set_sail instructions (sail_heuristic ch) in
      let ch := check_reached ch in
      if negb (Checkpoint.reached ch)
      then (ch :: rest, Instructions.set_location instructions (location_of ch))
      else
        let '(rest, instructions) := scan rest instructions in
        (ch :: rest, instructions)
  end.

End Tick.

(** [Bot.run].  The two queries are arbitrary callables: [None] stands for
    a call that raises, and the exception then leaves [run] before the
    loop.  The result pairs the bot after the call with the returned
    instructions. *)
Definition run {F M : Type} (self : Bot)
    (t dt longitude latitude heading speed : float) (vector : float * float)
    (forecast : float -> float -> float -> option F)
    (world_map : float -> float -> option M)
  : option (Bot * Instructions.t) :=
  current_position_forecast ← forecast latitude longitude 0;
  current_position_terrain ← world_map latitude longitude;
  let '(course, instructions) :=
    scan dt longitude latitude speed (course self) Instructions.empty in
  Some (mkBot (team self) course, instructions).

(** One call of [run] that returns, as a transition between bot states. *)
Definition tick_step (self self' : Bot) : Prop :=
  ∃ (F M : Type) t dt longitude latitude heading speed vector
    (forecast : float -> float -> float -> option F)
    (world_map : float -> float -> option M) instructions,
    run self t dt longitude latitude heading speed vector forecast world_map
    = Some (self', instructions).

End Run.

(** The first checkpoint of a course whose [reached] flag is false, with its
    position in the course. *)
Definition first_unreached (course : list Checkpoint.t) : option (nat * Checkpoint.t) :=
  list_find (λ ch, Checkpoint.reached ch = false) course.

(** The flags of a course are a run of reached checkpoints followed by
    unreached ones only: after an unreached checkpoint none is reached. *)
Fixpoint reached_prefix (course : list Checkpoint.t) : bool :=
  match course with
  | [] => true
  | ch :: rest =>
      if Checkpoint.reached ch then reached_prefix rest
      else forallb (λ c, negb (Checkpoint.reached c)) rest
  end.

(** ** The call with Python's numbers and exceptions

    Python dispatches an arithmetic operator on the types of its operands.
    Between two Python numbers, [/] raises [ZeroDivisionError] on a zero
    divisor; as soon as one operand is a [numpy.float64] the operation is
    numpy's, which follows IEEE 754 and only warns.  [*], [+] and [<] on
    floats raise in neither case.  The model below keeps the kind of every
    number next to its value, so that the division of [run] can raise. *)

(** The exceptions a call can end with. *)
Inductive exn := ZeroDivisionError | QueryError.

(** The outcome of an expression or of a call: a value, or an exception. *)
Inductive result (A : Type) :=
  | Ok (a : A)
  | Raise (e : exn).
Arguments Ok {A} a.
Arguments Raise {A} e.

#[global] Instance result_bind : MBind result := λ A B k r,
  match r with
  | Ok a => k a
  | Raise e => Raise e
  end.

(** A number is a Python number ([float], or an [int] such as a radius
    literal, which the operations of [run] convert exactly) or a
    [numpy.float64]. *)
Inductive kind := Py | Np.

Record num := Num { kind_of : kind; val : float }.

(** The kind of the result of a binary operation: numpy's as soon as one
    operand is numpy's. *)
Definition promote (k1 k2 : kind) : kind :=
  match k1, k2 with
  | Py, Py => Py
  | _, _ => Np
  end.

(** [a * b] and [a + b] *)
Definition num_mul (a b : num) : num :=
  Num (promote (kind_of a) (kind_of b)) (val a * val b).
Definition num_add (a b : num) : num :=
  Num (promote (kind_of a) (kind_of b)) (val a + val b).

(** [a / b] *)
Definition num_truediv (a b : num) : result num :=
  match promote (kind_of a) (kind_of b) with
  | Py => if val b =? 0 then Raise ZeroDivisionError
          else Ok (Num Py (val a / val b))
  | Np => Ok (Num Np (val a / val b))
  end.

(** [a < b] *)
Definition num_lt (a b : num) : bool := val a <? val b.

(** [min(a, b)] *)
Definition num_min (a b : num) : num := if num_lt b a then b else a.

(** [np.linalg.norm(x)]: the result is a [numpy.float64] whatever the kind
    of the argument. *)
Definition num_linalg_norm (x : num) : num := Num Np (np_linalg_norm (val x)).

Section RunPy.

Variable distance_on_surface : float -> float -> float -> float -> float.

Section TickPy.

Variables (dt longitude latitude speed : num).

(** Lines 125-136 for one checkpoint: the value assigned to
    [instructions.sail], or the exception of the division. *)
Definition sail_heuristic_py (ch : Checkpoint.t) : result float :=
  let dist :=
    Num Np (distance_on_surface (val longitude) (val latitude)
              (Checkpoint.longitude ch) (Checkpoint.latitude ch)) in
  let jump := num_mul dt (num_linalg_norm speed) in
  if num_lt dist (num_add (num_mul (Num Py 2.0) (Num Py (Checkpoint.radius ch))) jump)
  then
    q ← num_truediv (Num Py (Checkpoint.radius ch)) jump;
    Ok (val (num_min q (Num Py 1)))
  else Ok 1.0.

(** The loop of lines 123-144, leaving with the exception of the first
    iteration that raises. *)
Fixpoint scan_py (course : list Checkpoint.t) (instructions : Instructions.t)
  : result (list Checkpoint.t * Instructions.t) :=
  match course with
  | [] => Ok ([], instructions)
  | ch :: rest =>
      s ← sail_heuristic_py ch;
      let instructions := Instructions.set_sail instructions s in
      let ch := check_reached distance_on_surface (val longitude) (val latitude) ch in
      if negb (Checkpoint.reached ch)
      then Ok (ch :: rest,
               Instructions.set_location instructions (location_of ch))
      else
        '(rest, instructions) ← scan_py rest instructions;
        Ok (ch :: rest, instructions)
  end.

End TickPy.

(** [Bot.run] with its exceptions: that of a query, or that of the loop. *)
Definition run_py {F M : Type} (self : Bot)
    (t dt longitude latitude heading speed : num) (vector : num * num)
    (forecast : float -> float -> float -> option F)
    (world_map : float -> float -> option M)
  : result (Bot * Instructions.t) :=
  match forecast (val latitude) (val longitude) 0 with
  | None => Raise QueryError
  | Some current_position_forecast =>
      match world_map (val latitude) (val longitude) with
      | None => Raise QueryError
      | Some current_position_terrain =>
          '(course, instructions) ←
            scan_py dt longitude latitude speed (course self) Instructions.empty;
          Ok (mkBot (team self) course, instructions)
      end
  end.

End RunPy.

(** ** Vocabulary for the numeric bounds *)

(** A radius as the constructor of [Bot] gives it: positive and finite. *)
Definition positive_finite (r : float) : bool := (0 <? r) && (r <? infinity).

(** The values of [SpecFloat] that are zero, positive or plus infinity (of
    sign bit 0 and not NaN). *)
Definition sf_nonneg (x : spec_float) : bool :=
  match x with
  | S754_zero s | S754_infinity s | S754_finite s _ _ => negb s
  | S754_nan => false
  end.

(** ** Concrete ticks *)

(** A stand-in for [distance_on_surface] to run the model on concrete
    ticks: the flat-map distance in kilometres, one degree being 111.19 km
    (the length of a degree of a great circle).  Like the great-circle
    distance it is zero between a point and itself. *)
Definition flat_distance (longitude1 latitude1 longitude2 latitude2 : float) : float :=
  let dx := longitude1 - longitude2 in
  let dy := latitude1 - latitude2 in
  111.19 * sqrt (dx * dx + dy * dy).

(** Queries that return. *)
Definition calm (latitudes longitudes times : float) : option (float * float) :=
  Some (0, 0).
Definition storm (latitudes longitudes times : float) : option (list float) :=
  Some [35.5; -12].
Definition open_sea (latitudes longitudes : float) : option float := Some 1.
Definition land (latitudes longitudes : float) : option bool := Some false.

(** A start position for [config.start]. *)
Definition les_sables : Location.t := Location.mk (-1.81) 46.494.

(** Instructions that steer to [loc] under sail [s], and instructions that
    only set the sail. *)
Definition steer (loc : Location.t) (s : float) : Instructions.t :=
  Instructions.mk (Some loc) None None None None (Some s).
Definition sail_only (s : float) : Instructions.t :=
  Instructions.mk None None None None None (Some s).

(** A course of two marks ten degrees apart, the second one at the origin;
    the same course once the first mark is reached, and once both are. *)
Definition two_marks : Bot :=
  mkBot "TeamName" [ new_checkpoint 0 10 10; new_checkpoint 0 0 10 ].
Definition second_leg : Bot :=
  mkBot "TeamName" [ Checkpoint.mk 10 0 10 true; new_checkpoint 0 0 10 ].
Definition finished : Bot :=
  mkBot "TeamName" [ Checkpoint.mk 10 0 10 true; Checkpoint.mk 0 0 10 true ].

(** A course of two marks 5.56 km apart, each of radius 10, and the same
    course with both marks reached. *)
Definition close_marks : Bot :=
  mkBot "TeamName" [ new_checkpoint 0 0 10; new_checkpoint 0.05 0 10 ].
Definition close_marks_done : Bot :=
  mkBot "TeamName" [ Checkpoint.mk 0 0 10 true; Checkpoint.mk 0 0.05 10 true ].

(** The bot of [Bot.__init__] once its first checkpoint is reached. *)
Definition first_leg_done : Bot :=
  mkBot "TeamName"
    (<[0%nat := Checkpoint.mk 43.797109 (-11.264905) 50 true]>
       (course (Bot_init les_sables))).

(** Latitudes 45 km and 35 km north of the origin for [flat_distance]. *)
Definition north_45 : float := 0.40471265401564888.
Definition north_35 : float := 0.31477650867883805.

(** ** IEEE 754 facts: the sign of a rounded quotient, and comparisons *)

Section Rounding.
Local Open Scope Z_scope.

(** Rounding a mantissa that is not negative never yields a negative one:
    shifting right and rounding to nearest-even both keep the sign. *)

Lemma shr_1_nonneg mrs : 0 ≤ shr_m mrs → 0 ≤ shr_m (shr_1 mrs).
Proof. destruct mrs as [[|[p|p|]|p] r s]; simpl; lia. Qed.

Lemma iter_shr_1_nonneg n mrs :
  0 ≤ shr_m mrs → 0 ≤ shr_m (SpecFloat.iter_pos shr_1 n mrs).
Proof.
  revert mrs. induction n as [n IH|n IH|]; intros mrs Hm; simpl.
  - apply IH, IH, shr_1_nonneg, Hm.
  - apply IH, IH, Hm.
  - apply shr_1_nonneg, Hm.
Qed.

Lemma shr_fexp_nonneg m e l :
  0 ≤ m → 0 ≤ shr_m (shr_fexp prec emax m e l).1.
Proof.
  intros Hm. unfold shr_fexp, shr.
  assert (0 ≤ shr_m (shr_record_of_loc m l)) by (by destruct l as [|[]]).
  destruct (_ - e); simpl; auto using iter_shr_1_nonneg.
Qed.

Lemma round_nearest_even_nonneg m l : 0 ≤ m → 0 ≤ round_nearest_even m l.
Proof.
  intros Hm. destruct l as [|[]]; simpl; try lia.
  destruct (Z.even m); lia.
Qed.

Lemma binary_round_aux_nonneg m e l :
  0 ≤ m → sf_nonneg (binary_round_aux prec emax false m e l) = true.
Proof.
  intros Hm. unfold binary_round_aux.
  pose proof (shr_fexp_nonneg m e l Hm) as H1.
  destruct (shr_fexp prec emax m e l) as [mrs' e']. simpl in H1.
  pose proof (shr_fexp_nonneg _ e' loc_Exact
    (round_nearest_even_nonneg _ (loc_of_shr_record mrs') H1)) as H2.
  destruct (shr_fexp prec emax _ e' loc_Exact) as [mrs'' e'']. simpl in H2.
  destruct (shr_m mrs''); [done| |lia].
  by destruct (_ <=? _)%Z.
Qed.

Lemma SFdiv_core_binary_nonneg mx ex my ey :
  0 ≤ (SFdiv_core_binary prec emax (Zpos mx) ex (Zpos my) ey).1.1.
Proof.
  unfold SFdiv_core_binary. cbv zeta.
  set (s := _ - _ - _).
  set (m' := match s with Z0 => _ | Zpos _ => _ | Zneg _ => _ end).
  assert (0 ≤ m') as Hm'.
  { subst m'. destruct s; [lia| |lia]. apply Z.shiftl_nonneg. lia. }
  pose proof (Z.div_pos m' (Zpos my) Hm' eq_refl) as Hq.
  unfold Z.div in Hq.
  by destruct (Z.div_eucl m' (Zpos my)).
Qed.

End Rounding.

(** A positive finite value divided by a positive value (infinity included)
    is zero, positive or plus infinity; it is never NaN. *)
Lemma SF64div_nonneg mx ex y :
  SFltb (S754_zero false) y = true →
  sf_nonneg (SF64div (S754_finite false mx ex) y) = true.
Proof.
  destruct y as [s|[]| |[] my ey]; try done.
  intros _. unfold SF64div, SFdiv.
  pose proof (SFdiv_core_binary_nonneg mx ex my ey) as Hq.
  destruct (SFdiv_core_binary _ _ _ _ _ _) as [[mz ez] lz].
  by apply binary_round_aux_nonneg.
Qed.

Lemma SFleb_zero_nonneg x : sf_nonneg x = true → SFleb (S754_zero false) x = true.
Proof. by destruct x as [[]|[]| |[] m e]. Qed.

(** Comparison of two values that are not NaN, read the other way round. *)
Lemma compare_cont_swap (mx my : positive) :
  PosDef.Pos.compare_cont Eq my mx = CompOpp (PosDef.Pos.compare_cont Eq mx my).
Proof. exact (eq_sym (Pos.compare_cont_antisym mx my Eq)). Qed.

Lemma Zcompare_swap (ex ey : Z) :
  IntDef.Z.compare ey ex = CompOpp (IntDef.Z.compare ex ey).
Proof. exact (Z.compare_antisym ex ey). Qed.

Lemma SFcompare_antisym x y c :
  SFcompare x y = Some c → SFcompare y x = Some (CompOpp c).
Proof.
  destruct x as [sx|sx| |sx mx ex], y as [sy|sy| |sy my ey]; try done;
    repeat match goal with s : bool |- _ => destruct s end;
    simpl; intros Hc; injection Hc as <-; f_equal; try done;
    rewrite (Zcompare_swap ex ey), (compare_cont_swap mx my);
    by destruct (IntDef.Z.compare ex ey), (PosDef.Pos.compare_cont Eq mx my).
Qed.

Lemma SFleb_of_not_ltb x y :
  sf_nonneg x = true → sf_nonneg y = true →
  SFltb x y = false → SFleb y x = true.
Proof.
  intros Hx Hy. unfold SFltb, SFleb.
  destruct (SFcompare x y) as [c|] eqn:Hc.
  - rewrite (SFcompare_antisym _ _ _ Hc). by destruct c.
  - by destruct x as [?|?| |? ? ?], y as [?|?| |? ? ?].
Qed.

Lemma SF_positive_finite x :
  SFltb (S754_zero false) x = true →
  SFltb x (S754_infinity false) = true →
  ∃ m e, x = S754_finite false m e.
Proof. destruct x as [?|[]| |[] m e]; try done. by exists m, e. Qed.

(** ** Bounds on the quotient [radius / jump] *)

Lemma Prim2SF_zero : Prim2SF 0 = S754_zero false.
Proof. reflexivity. Qed.

Lemma Prim2SF_infinity : Prim2SF infinity = S754_infinity false.
Proof. reflexivity. Qed.

Lemma div_positive_nonneg (r j : float) :
  positive_finite r = true → (0 <? j) = true →
  sf_nonneg (Prim2SF (r / j)) = true.
Proof.
  unfold positive_finite. rewrite andb_true_iff, !ltb_spec, div_spec.
  rewrite Prim2SF_zero, Prim2SF_infinity.
  intros [H0 Hinf] Hj.
  destruct (SF_positive_finite _ H0 Hinf) as (m & e & ->).
  by apply SF64div_nonneg.
Qed.

(** [min(q, 1)] of a quotient that is not negative and not NaN. *)
Lemma py_min_one_bounds (q : float) :
  sf_nonneg (Prim2SF q) = true →
  (0 <=? py_min q 1) = true ∧ (py_min q 1 <=? 1) = true.
Proof.
  intros Hq. unfold py_min. destruct (1 <? q) eqn:Hlt; [done|].
  rewrite !leb_spec, Prim2SF_zero. rewrite ltb_spec in Hlt.
  split; [by apply SFleb_zero_nonneg|].
  by apply SFleb_of_not_ltb.
Qed.

(** A boolean test on a prefix, read position by position. *)
Lemma forallb_take_lookup {A : Type} (f : A → bool) (l : list A) (i : nat) :
  forallb f (take i l) = true ↔ ∀ j x, j < i → l !! j = Some x → f x = true.
Proof.
  revert i. induction l as [|a l IH]; intros [|i]; simpl;
    try (split; [intros _ j x Hj Hx; try lia; done | done]).
  rewrite andb_true_iff, IH. split.
  - intros [Ha Hl] [|j] x Hj Hx; simpl in Hx; [congruence|].
    apply (Hl j); [lia|done].
  - intros H. split; [by apply (H 0%nat); [lia|]|].
    intros j x Hj Hx. apply (H (S j)); [lia|done].
Qed.

(** ** The loop, checkpoint by checkpoint *)

Section ScanFacts.

Variable distance_on_surface : float -> float -> float -> float -> float.
Variables (dt longitude latitude speed : float).

Abbreviation within' := (within distance_on_surface longitude latitude).
Abbreviation passes' := (passes distance_on_surface longitude latitude).
Abbreviation check_reached' := (check_reached distance_on_surface longitude latitude).
Abbreviation sail_heuristic' :=
  (sail_heuristic distance_on_surface dt longitude latitude speed).
Abbreviation scan' := (scan distance_on_surface dt longitude latitude speed).

Lemma reached_check_reached ch :
  Checkpoint.reached (check_reached' ch) = passes' ch.
Proof.
  unfold check_reached, passes.
  destruct (within' ch); simpl; by rewrite ?orb_true_r, ?orb_false_r.
Qed.

Lemma static_check_reached ch :
  Checkpoint.static (check_reached' ch) = Checkpoint.static ch.
Proof. unfold check_reached. by destruct (within' ch). Qed.

Lemma location_of_check_reached ch :
  location_of (check_reached' ch) = location_of ch.
Proof. unfold check_reached. by destruct (within' ch). Qed.

(** One iteration of the loop. *)
Lemma scan_cons ch rest instructions :
  scan' (ch :: rest) instructions =
    let instructions' := Instructions.set_sail instructions (sail_heuristic' ch) in
    if passes' ch
    then (check_reached' ch :: (scan' rest instructions').1, (scan' rest instructions').2)
    else (check_reached' ch :: rest,
          Instructions.set_location instructions' (location_of ch)).
Proof.
  simpl. rewrite reached_check_reached, location_of_check_reached.
  destruct (passes' ch); simpl; [|done].
  by destruct (scan _ _ _ _ _ rest _).
Qed.

(** The course after the loop: the checkpoints the loop gets to are
    checked, the others are left alone. *)
Lemma scan_lookup course instructions i :
  (scan' course instructions).1 !! i =
    (λ ch, if forallb passes' (take i course) then check_reached' ch else ch)
      <$> course !! i.
Proof.
  revert instructions i.
  induction course as [|ch rest IH]; intros instructions i; [done|].
  rewrite scan_cons. cbv zeta.
  destruct i as [|i]; [by destruct (passes' ch)|].
  destruct (passes' ch) eqn:Hp; simpl; rewrite ?Hp; simpl.
  - apply IH.
  - by destruct (rest !! i).
Qed.

Lemma scan_static course instructions :
  Checkpoint.static <$> (scan' course instructions).1 = Checkpoint.static <$> course.
Proof.
  revert instructions.
  induction course as [|ch rest IH]; intros instructions; [done|].
  rewrite scan_cons. cbv zeta.
  destruct (passes' ch); simpl; rewrite static_check_reached; [|done].
  by rewrite IH.
Qed.

(** The location that is returned is that of the first checkpoint left
    unreached. *)
Lemma scan_location_first_unreached course instructions :
  Instructions.location instructions = None →
  Instructions.location (scan' course instructions).2 =
    (location_of ∘ snd) <$> first_unreached (scan' course instructions).1.
Proof.
  revert instructions.
  induction course as [|ch rest IH]; intros instructions Hloc; [done|].
  rewrite scan_cons. cbv zeta. unfold first_unreached.
  destruct (passes' ch) eqn:Hp; simpl.
  - rewrite decide_False by (rewrite reached_check_reached, Hp; done).
    rewrite IH by done. unfold first_unreached.
    by destruct (list_find _ _) as [[??]|].
  - rewrite decide_True by (rewrite reached_check_reached, Hp; done).
    simpl. by rewrite location_of_check_reached.
Qed.

(** With every checkpoint reached at entry the loop runs to the end of the
    course: no location is written and the sail is the one computed for
    the last checkpoint. *)
Lemma scan_all_reached course instructions :
  Forall (λ ch, Checkpoint.reached ch = true) course →
  Instructions.location (scan' course instructions).2
    = Instructions.location instructions
  ∧ Instructions.sail (scan' course instructions).2
    = from_option Some (Instructions.sail instructions)
        (sail_heuristic' <$> last course).
Proof.
  intros Hall. revert instructions.
  induction Hall as [|ch rest Hch Hrest IH]; intros instructions; [done|].
  rewrite scan_cons. cbv zeta. unfold passes. rewrite Hch. simpl.
  destruct (IH (Instructions.set_sail instructions (sail_heuristic' ch))) as [-> ->].
  split; [done|]. rewrite last_cons. by destruct (last rest).
Qed.

(** The sail that is returned is the one computed for the checkpoint the
    loop stops at. *)
Lemma scan_sail_active course instructions k ch :
  list_find (λ ch, passes' ch = false) course = Some (k, ch) →
  Instructions.sail (scan' course instructions).2 = Some (sail_heuristic' ch).
Proof.
  revert instructions k.
  induction course as [|c rest IH]; intros instructions k; [done|].
  rewrite scan_cons. cbv zeta. cbn [list_find].
  destruct (passes' c) eqn:Hp; case_decide; try done.
  - destruct (list_find _ rest) as [[k' ch']|] eqn:Hfind; [|done].
    simpl. intros [= <- <-]. by eapply IH.
  - by intros [= <- <-].
Qed.

(** On a course that is not empty the sail is always written, with the
    value computed for one of the checkpoints. *)
Lemma scan_sail_elem course instructions :
  course ≠ [] →
  ∃ ch, ch ∈ course
    ∧ Instructions.sail (scan' course instructions).2 = Some (sail_heuristic' ch).
Proof.
  revert instructions.
  induction course as [|c rest IH]; intros instructions Hne; [done|].
  rewrite scan_cons. cbv zeta.
  destruct (passes' c); simpl; [|exists c; split; [left|done]].
  destruct rest as [|c' rest].
  - exists c. split; [left|done].
  - destruct (IH (Instructions.set_sail instructions (sail_heuristic' c)))
      as (ch & Hin & Hsail); [done|].
    exists ch. split; [by right|done].
Qed.

End ScanFacts.

(** ** Facts about one call *)

Section RunFacts.

Variable distance_on_surface : float -> float -> float -> float -> float.
Context {F M : Type}.
Variables (self : Bot) (t dt longitude latitude heading speed : float).
Variables (vector : float * float).
Variables (forecast : float -> float -> float -> option F).
Variables (world_map : float -> float -> option M).

(** A call that returns has run the loop over [self.course], starting from
    [Instructions()]. *)
Lemma run_Some self' instructions :
  run distance_on_surface self t dt longitude latitude heading speed vector
    forecast world_map = Some (self', instructions) →
  self' = mkBot (team self)
            (scan distance_on_surface dt longitude latitude speed
               (course self) Instructions.empty).1
  ∧ instructions =
      (scan distance_on_surface dt longitude latitude speed
         (course self) Instructions.empty).2.
Proof.
  unfold run.
  destruct (forecast _ _ _); [|done]. destruct (world_map _ _); [|done]. simpl.
  destruct (scan _ _ _ _ _ _ _). by intros [= <- <-].
Qed.

(** A call whose queries return, returns. *)
Lemma run_returns :
  is_Some (forecast latitude longitude 0) →
  is_Some (world_map latitude longitude) →
  run distance_on_surface self t dt longitude latitude heading speed vector
    forecast world_map
  = Some (mkBot (team self)
            (scan distance_on_surface dt longitude latitude speed
               (course self) Instructions.empty).1,
          (scan distance_on_surface dt longitude latitude speed
             (course self) Instructions.empty).2).
Proof.
  intros [f Hf] [m Hm]. unfold run. rewrite Hf, Hm. simpl.
  by destruct (scan _ _ _ _ _ _ _).
Qed.

End RunFacts.

(** A step keeps the team and the static fields of every checkpoint. *)
Lemma tick_step_static distance_on_surface self self' :
  tick_step distance_on_surface self self' →
  team self' = team self
  ∧ Checkpoint.static <$> course self' = Checkpoint.static <$> course self.
Proof.
  intros (F & M & t & dt & lon & lat & h & sp & v & f & w & i & Hrun).
  apply run_Some in Hrun as [-> _]. simpl. split; [done|].
  apply scan_static.
Qed.

Lemma rtc_tick_step_static distance_on_surface self self' :
  rtc (tick_step distance_on_surface) self self' →
  team self' = team self
  ∧ Checkpoint.static <$> course self' = Checkpoint.static <$> course self.
Proof.
  induction 1 as [|b1 b2 b3 Hstep _ [IHt IHc]]; [done|].
  apply tick_step_static in Hstep as [Ht Hc]. split; congruence.
Qed.

(** The radii of the course that [Bot.__init__] builds. *)
Lemma Bot_init_radii start :
  Forall (λ st : float * float * float, positive_finite st.2 = true)
    (Checkpoint.static <$> course (Bot_init start)).
Proof. simpl. repeat constructor. Qed.

(** The sail heuristic on a checkpoint of positive, finite radius, when the
    jump is positive: the value is between 0 and 1. *)
Lemma sail_heuristic_bounds distance_on_surface dt longitude latitude speed ch :
  positive_finite (Checkpoint.radius ch) = true →
  (0 <? jump dt speed) = true →
  let s := sail_heuristic distance_on_surface dt longitude latitude speed ch in
  (0 <=? s) = true ∧ (s <=? 1) = true.
Proof.
  intros Hr Hj. cbv zeta. unfold sail_heuristic.
  destruct (_ <? _ + _); [|done].
  apply py_min_one_bounds. by apply div_positive_nonneg.
Qed.

(** ** Properties of [Bot.run] *)

Section Claims.

Variable distance_on_surface : float -> float -> float -> float -> float.

Abbreviation run' := (run distance_on_surface).
Abbreviation dist' := (dist_to distance_on_surface).

(** C1 (ordering): when the instructions returned by a call carry a location,
    it is the position (longitude, latitude) of the first checkpoint of the
    course whose [reached] flag is false once the call has updated the
    flags. *)
Theorem run_location_is_first_unreached {F M : Type} self t dt longitude latitude
    heading speed vector (forecast : float -> float -> float -> option F)
    (world_map : float -> float -> option M) self' instructions loc :
  run' self t dt longitude latitude heading speed vector forecast world_map
    = Some (self', instructions) →
  Instructions.location instructions = Some loc →
  ∃ k ch, first_unreached (course self') = Some (k, ch)
    ∧ loc = Location.mk (Checkpoint.longitude ch) (Checkpoint.latitude ch).
Proof.
  intros Hrun Hloc. apply run_Some in Hrun as [-> ->].
  rewrite scan_location_first_unreached in Hloc by done. simpl.
  destruct (first_unreached _) as [[k ch]|]; [|done].
  injection Hloc as <-. by exists k, ch.
Qed.

(** One call never takes a [reached] flag back. *)
Lemma tick_step_reached self self' i ch :
  tick_step distance_on_surface self self' →
  course self !! i = Some ch → Checkpoint.reached ch = true →
  ∃ ch', course self' !! i = Some ch' ∧ Checkpoint.reached ch' = true.
Proof.
  intros (F & M & t & dt & lon & lat & h & sp & v & f & w & ins & Hrun) Hi Hr.
  apply run_Some in Hrun as [-> _]. simpl.
  rewrite scan_lookup, Hi. simpl. eexists. split; [done|].
  destruct (forallb _ _); [|done].
  rewrite reached_check_reached. unfold passes. by rewrite Hr.
Qed.

(** C3 (monotonic reachability): over any sequence of calls to [run], a
    checkpoint whose [reached] flag is true keeps it true; no call sets a
    flag back to false. *)
Theorem reached_is_permanent self self' i ch :
  rtc (tick_step distance_on_surface) self self' →
  course self !! i = Some ch → Checkpoint.reached ch = true →
  ∃ ch', course self' !! i = Some ch' ∧ Checkpoint.reached ch' = true.
Proof.
  intros Hsteps. revert ch.
  induction Hsteps as [b|b1 b2 b3 Hstep _ IH]; intros ch Hi Hr.
  - by exists ch.
  - destruct (tick_step_reached _ _ _ _ Hstep Hi Hr) as (ch2 & Hi2 & Hr2).
    by eapply IH.
Qed.

(** C6 (all reached): when every checkpoint is reached at entry, the returned
    instructions carry no location directive and their sail is the value of
    the sail heuristic for the final checkpoint of the course. *)
Theorem all_reached_no_location {F M : Type} self t dt longitude latitude
    heading speed vector (forecast : float -> float -> float -> option F)
    (world_map : float -> float -> option M) self' instructions :
  Forall (λ ch, Checkpoint.reached ch = true) (course self) →
  run' self t dt longitude latitude heading speed vector forecast world_map
    = Some (self', instructions) →
  Instructions.location instructions = None
  ∧ Instructions.sail instructions =
      sail_heuristic distance_on_surface dt longitude latitude speed
        <$> last (course self).
Proof.
  intros Hall Hrun. apply run_Some in Hrun as [_ ->].
  destruct (scan_all_reached distance_on_surface dt longitude latitude speed
              _ Instructions.empty Hall) as [-> ->].
  split; [done|]. by destruct (last _).
Qed.

(** C8 (noninterference): two calls on bots in the same state with the same
    vessel inputs return the same instructions and leave the same flags,
    whatever the two pairs of queries return. *)
Theorem queries_do_not_interfere {F1 M1 F2 M2 : Type} self t dt longitude latitude
    heading speed vector
    (forecast1 : float -> float -> float -> option F1)
    (world_map1 : float -> float -> option M1)
    (forecast2 : float -> float -> float -> option F2)
    (world_map2 : float -> float -> option M2) :
  is_Some (forecast1 latitude longitude 0) →
  is_Some (world_map1 latitude longitude) →
  is_Some (forecast2 latitude longitude 0) →
  is_Some (world_map2 latitude longitude) →
  run' self t dt longitude latitude heading speed vector forecast1 world_map1
  = run' self t dt longitude latitude heading speed vector forecast2 world_map2.
Proof. intros Hf1 Hm1 Hf2 Hm2. by rewrite !run_returns. Qed.

(** C9 (frame): a call leaves the team, the length of the course and the
    latitude, longitude and radius of every checkpoint as they were; only
    [reached] flags can differ. *)
Theorem run_frame {F M : Type} self t dt longitude latitude
    heading speed vector (forecast : float -> float -> float -> option F)
    (world_map : float -> float -> option M) self' instructions :
  run' self t dt longitude latitude heading speed vector forecast world_map
    = Some (self', instructions) →
  team self' = team self
  ∧ length (course self') = length (course self)
  ∧ ∀ i ch', course self' !! i = Some ch' →
      ∃ ch, course self !! i = Some ch
        ∧ Checkpoint.latitude ch' = Checkpoint.latitude ch
        ∧ Checkpoint.longitude ch' = Checkpoint.longitude ch
        ∧ Checkpoint.radius ch' = Checkpoint.radius ch.
Proof.
  intros Hrun. apply run_Some in Hrun as [-> _]. simpl.
  pose proof (scan_static distance_on_surface dt longitude latitude speed
                (course self) Instructions.empty) as Hst.
  split; [done|]. split.
  - by rewrite <- (length_fmap Checkpoint.static), Hst, length_fmap.
  - intros i ch' Hi.
    assert ((Checkpoint.static <$> course self) !! i = Some (Checkpoint.static ch'))
      as Hi' by (by rewrite <- Hst, list_lookup_fmap, Hi).
    rewrite list_lookup_fmap in Hi'.
    destruct (course self !! i) as [ch|]; [|done].
    exists ch. split; [done|]. by injection Hi' as -> -> ->.
Qed.

(** The flag of a checkpoint after a call, from the course at entry. *)
Lemma run_flag_after {F M : Type} self t dt longitude latitude
    heading speed vector (forecast : float -> float -> float -> option F)
    (world_map : float -> float -> option M) self' instructions i ch ch' :
  run' self t dt longitude latitude heading speed vector forecast world_map
    = Some (self', instructions) →
  course self !! i = Some ch → course self' !! i = Some ch' →
  Checkpoint.reached ch' =
    Checkpoint.reached ch
    || (forallb (passes distance_on_surface longitude latitude) (take i (course self))
        && within distance_on_surface longitude latitude ch).
Proof.
  intros Hrun Hi Hi'. apply run_Some in Hrun as [-> _]. simpl in Hi'.
  rewrite scan_lookup, Hi in Hi'. injection Hi' as <-.
  destruct (forallb _ _); simpl.
  - apply reached_check_reached.
  - by rewrite orb_false_r.
Qed.

(** C2 (reachability), as the loop implements it: during a call a
    checkpoint's flag goes from false to true if and only if it is unreached
    at entry, the distance from the vessel to it is strictly less than its
    radius, and the loop gets to it, that is every checkpoint before it is
    reached at entry or is itself closer than its own radius. *)
Theorem reached_transition_iff {F M : Type} self t dt longitude latitude
    heading speed vector (forecast : float -> float -> float -> option F)
    (world_map : float -> float -> option M) self' instructions i ch ch' :
  run' self t dt longitude latitude heading speed vector forecast world_map
    = Some (self', instructions) →
  course self !! i = Some ch → course self' !! i = Some ch' →
  (Checkpoint.reached ch = false ∧ Checkpoint.reached ch' = true)
  ↔ (Checkpoint.reached ch = false
     ∧ (dist' longitude latitude ch <? Checkpoint.radius ch) = true
     ∧ ∀ j cj, j < i → course self !! j = Some cj →
         Checkpoint.reached cj = true
         ∨ (dist' longitude latitude cj <? Checkpoint.radius cj) = true).
Proof.
  intros Hrun Hi Hi'.
  rewrite (run_flag_after _ _ _ _ _ _ _ _ _ _ _ _ _ _ _ Hrun Hi Hi').
  fold (within distance_on_surface longitude latitude ch).
  split.
  - intros [Hr Hr']. rewrite Hr in Hr'. simpl in Hr'.
    apply andb_true_iff in Hr' as [Hpre Hw]. split; [done|]. split; [done|].
    intros j cj Hj Hcj.
    apply orb_true_iff.
    by apply (proj1 (forallb_take_lookup _ _ _) Hpre j cj).
  - intros (Hr & Hw & Hpre). split; [done|]. rewrite Hr, Hw. simpl.
    rewrite andb_true_r. apply forallb_take_lookup. intros j cj Hj Hcj.
    apply orb_true_iff. by apply (Hpre j cj).
Qed.

(** C4 (sail bounds): for a bot built by [Bot.__init__] and driven by any
    calls since, a call with [jump = dt * |speed| > 0] returns instructions
    whose sail is set and lies between 0 and 1. *)
Theorem sail_in_unit_interval {F M : Type} start self t dt longitude latitude
    heading speed vector (forecast : float -> float -> float -> option F)
    (world_map : float -> float -> option M) self' instructions :
  rtc (tick_step distance_on_surface) (Bot_init start) self →
  (0 <? jump dt speed) = true →
  run' self t dt longitude latitude heading speed vector forecast world_map
    = Some (self', instructions) →
  ∃ s, Instructions.sail instructions = Some s
    ∧ (0 <=? s) = true ∧ (s <=? 1) = true.
Proof.
  intros Hreach Hjump Hrun.
  apply rtc_tick_step_static in Hreach as [_ Hst].
  pose proof (Bot_init_radii start) as Hradii.
  rewrite <- Hst, Forall_fmap, Forall_forall in Hradii.
  assert (course self ≠ []) as Hne by (by intros Hnil; rewrite Hnil in Hst).
  apply run_Some in Hrun as [_ ->].
  destruct (scan_sail_elem distance_on_surface dt longitude latitude speed
              _ Instructions.empty Hne) as (ch & Hin & Hsail).
  eexists. split; [exact Hsail|].
  apply sail_heuristic_bounds; [|done]. by apply (Hradii ch).
Qed.

(** The checkpoint the loop stops at is the first unreached one, when the
    vessel is not inside it. *)
Lemma active_checkpoint longitude latitude (cs : list Checkpoint.t) k ch :
  first_unreached cs = Some (k, ch) →
  within distance_on_surface longitude latitude ch = false →
  list_find (λ c, passes distance_on_surface longitude latitude c = false) cs
  = Some (k, ch).
Proof.
  unfold first_unreached. rewrite !list_find_Some.
  intros (Hk & Hr & Hbefore) Hw. split; [done|]. split.
  - unfold passes. by rewrite Hr, Hw.
  - intros j c Hj Hlt. unfold passes.
    destruct (Checkpoint.reached c) eqn:Hc; [done|].
    by destruct (Hbefore j c Hj Hlt).
Qed.

(** C5 (sail throttling): the active checkpoint has radius 10, [dt = 1] and
    [speed = 20], so that the jump is 20.  At distance 45 the returned sail
    is 1.0; at distance 35 it is 0.5. *)
Theorem sail_throttling_scenario {F M : Type} self t longitude latitude
    heading vector (forecast : float -> float -> float -> option F)
    (world_map : float -> float -> option M) self' instructions k ch :
  first_unreached (course self) = Some (k, ch) →
  Checkpoint.radius ch = 10 →
  run' self t 1 longitude latitude heading 20 vector forecast world_map
    = Some (self', instructions) →
  (dist' longitude latitude ch = 45 → Instructions.sail instructions = Some 1.0)
  ∧ (dist' longitude latitude ch = 35 → Instructions.sail instructions = Some 0.5).
Proof.
  intros Hactive Hradius Hrun. apply run_Some in Hrun as [_ ->].
  split; intros Hdist;
    (rewrite (scan_sail_active _ _ _ _ _ _ _ k ch);
     [ f_equal; unfold sail_heuristic; by rewrite Hdist, Hradius
     | apply active_checkpoint; [done|];
       unfold within; by rewrite Hdist, Hradius ]).
Qed.

(** On any course, whether or not the capture disks of its checkpoints
    overlap: a flag that changes goes from false to true; every checkpoint
    up to a changed one is reached after the call; and the first checkpoint
    that was unreached at entry comes no later in the course and is reached
    after the call. *)
Lemma changed_flags_follow_first_unreached {F M : Type} self t dt longitude
    latitude heading speed vector (forecast : float -> float -> float -> option F)
    (world_map : float -> float -> option M) self' instructions i ch ch' :
  run' self t dt longitude latitude heading speed vector forecast world_map
    = Some (self', instructions) →
  course self !! i = Some ch → course self' !! i = Some ch' →
  Checkpoint.reached ch' ≠ Checkpoint.reached ch →
  (Checkpoint.reached ch = false ∧ Checkpoint.reached ch' = true)
  ∧ (∀ j cj', j ≤ i → course self' !! j = Some cj' →
       Checkpoint.reached cj' = true)
  ∧ ∃ k c c', first_unreached (course self) = Some (k, c) ∧ k ≤ i
      ∧ course self' !! k = Some c' ∧ Checkpoint.reached c' = true.
Proof.
  intros Hrun Hi Hi' Hchange.
  pose proof (run_flag_after _ _ _ _ _ _ _ _ _ _ _ _ _ _ _ Hrun Hi Hi') as Hflag.
  assert (Checkpoint.reached ch = false ∧ Checkpoint.reached ch' = true
          ∧ forallb (passes distance_on_surface longitude latitude)
              (take i (course self)) = true) as (Hr & Hr' & Hpre).
  { destruct (Checkpoint.reached ch), (forallb _ _),
      (within distance_on_surface longitude latitude ch);
      simpl in Hflag; by rewrite ?Hflag in *. }
  assert (∀ j cj', j ≤ i → course self' !! j = Some cj' →
            Checkpoint.reached cj' = true) as Hupto.
  { intros j cj' Hj Hcj'.
    destruct (decide (j = i)) as [->|Hne]; [congruence|].
    assert (is_Some (course self !! j)) as [cj Hcj].
    { apply lookup_lt_is_Some. apply lookup_lt_Some in Hi. lia. }
    rewrite (run_flag_after _ _ _ _ _ _ _ _ _ _ _ _ _ _ _ Hrun Hcj Hcj').
    pose proof (proj1 (forallb_take_lookup _ _ _) Hpre j cj) as Hp.
    unfold passes in Hp.
    assert (forallb (passes distance_on_surface longitude latitude)
              (take j (course self)) = true) as ->.
    { apply forallb_take_lookup. intros j' x Hj' Hx.
      apply (proj1 (forallb_take_lookup _ _ _) Hpre j' x); [lia|done]. }
    simpl. apply Hp; [lia|done]. }
  split; [done|]. split; [done|].
  destruct (list_find_elem_of (λ c, Checkpoint.reached c = false)
              (course self) ch) as [[k c] Hfind];
    [by eapply list_elem_of_lookup_2|done|].
  pose proof Hfind as Hfind'.
  apply list_find_Some in Hfind' as (Hk & Hc & Hmin).
  assert (k ≤ i) as Hki.
  { destruct (decide (k ≤ i)) as [|Hgt]; [done|].
    destruct (Hmin i ch Hi); [lia|done]. }
  assert (is_Some (course self' !! k)) as [c' Hc'].
  { apply lookup_lt_is_Some. apply lookup_lt_Some in Hi'. lia. }
  exists k, c, c'. split; [done|]. split; [done|]. split; [done|].
  by apply (Hupto k).
Qed.

End Claims.

(** ** The properties on concrete ticks *)

(** The vessel sits on the first of [two_marks]: that mark becomes reached
    and the bot steers to the second one. *)
Lemma run_location_is_first_unreached_witness :
  run flat_distance two_marks 0 1 0 10 0 20 (0, 1) calm open_sea
    = Some (second_leg, steer (Location.mk 0 0) 1)
  ∧ ∃ k ch, first_unreached (course second_leg) = Some (k, ch)
      ∧ Location.mk 0 0 = Location.mk (Checkpoint.longitude ch) (Checkpoint.latitude ch).
Proof.
  split; [reflexivity|].
  apply (run_location_is_first_unreached flat_distance two_marks 0 1 0 10 0 20
           (0, 1) calm open_sea second_leg (steer (Location.mk 0 0) 1));
    reflexivity.
Defined.

(** On the course that [Bot.__init__] builds, the vessel sits on the second
    checkpoint while the first one is unreached: the call returns with the
    course as it was, so the flag of the second checkpoint does not go from
    false to true, although the distance to it is below its radius. *)
Lemma reached_iff_within_radius_fails :
  run flat_distance (Bot_init les_sables) 0 1 (-57.16281) 16.79314 0 20 (0, 1)
      calm open_sea
    = Some (Bot_init les_sables, steer (Location.mk (-11.264905) 43.797109) 1)
  ∧ course (Bot_init les_sables) !! 1%nat
    = Some (new_checkpoint (-57.16281) 16.79314 50)
  ∧ ¬ ((Checkpoint.reached (new_checkpoint (-57.16281) 16.79314 50) = false
        ∧ Checkpoint.reached (new_checkpoint (-57.16281) 16.79314 50) = true)
       ↔ (flat_distance (-57.16281) 16.79314 (-57.16281) 16.79314 <? 50) = true).
Proof.
  split; [reflexivity|]. split; [reflexivity|].
  intros [_ H]. destruct H as [_ H]; [reflexivity|discriminate H].
Qed.

(** Both of [close_marks] contain the vessel: the loop gets to the second
    mark because the first one is closer than its radius, and the flag of
    the second mark goes from false to true. *)
Lemma reached_transition_iff_witness :
  run flat_distance close_marks 0 1 0 0 0 20 (0, 1) calm open_sea
    = Some (close_marks_done, sail_only 0.5)
  ∧ ((Checkpoint.reached (new_checkpoint 0.05 0 10) = false
      ∧ Checkpoint.reached (Checkpoint.mk 0 0.05 10 true) = true)
     ↔ (Checkpoint.reached (new_checkpoint 0.05 0 10) = false
        ∧ (dist_to flat_distance 0 0 (new_checkpoint 0.05 0 10)
             <? Checkpoint.radius (new_checkpoint 0.05 0 10)) = true
        ∧ ∀ j cj, j < 1 → course close_marks !! j = Some cj →
            Checkpoint.reached cj = true
            ∨ (dist_to flat_distance 0 0 cj <? Checkpoint.radius cj) = true)).
Proof.
  split; [reflexivity|].
  apply (reached_transition_iff flat_distance close_marks 0 1 0 0 0 20 (0, 1)
           calm open_sea close_marks_done (sail_only 0.5) 1
           (new_checkpoint 0.05 0 10) (Checkpoint.mk 0 0.05 10 true));
    reflexivity.
Defined.

(** From [second_leg] the vessel sails onto the second mark: that mark
    becomes reached and the first one stays reached. *)
Lemma reached_is_permanent_witness :
  rtc (tick_step flat_distance) second_leg finished
  ∧ ∃ ch', course finished !! 0%nat = Some ch' ∧ Checkpoint.reached ch' = true.
Proof.
  assert (rtc (tick_step flat_distance) second_leg finished) as Hsteps.
  { apply rtc_once.
    exists (float * float)%type, float, 0, 1, 0, 0, 0, 20, (0, 1), calm, open_sea,
      (sail_only 0.5).
    reflexivity. }
  split; [exact Hsteps|].
  apply (reached_is_permanent flat_distance second_leg finished 0
           (Checkpoint.mk 10 0 10 true) Hsteps); reflexivity.
Defined.

(** The first tick of a race, 56 km from the first checkpoint at 100 km per
    tick: half sail. *)
Lemma sail_in_unit_interval_witness :
  (0 <? jump 1 100) = true
  ∧ run flat_distance (Bot_init les_sables) 0 1 (-11.264905) 44.3 0 100 (0, 1)
      calm open_sea
    = Some (Bot_init les_sables, steer (Location.mk (-11.264905) 43.797109) 0.5)
  ∧ ∃ s, Instructions.sail (steer (Location.mk (-11.264905) 43.797109) 0.5) = Some s
      ∧ (0 <=? s) = true ∧ (s <=? 1) = true.
Proof.
  split; [reflexivity|]. split; [reflexivity|].
  apply (sail_in_unit_interval flat_distance les_sables (Bot_init les_sables)
           0 1 (-11.264905) 44.3 0 100 (0, 1) calm open_sea
           (Bot_init les_sables) (steer (Location.mk (-11.264905) 43.797109) 0.5));
    [apply rtc_refl|reflexivity|reflexivity].
Defined.

(** The scenario on [second_leg], whose active mark is at the origin with
    radius 10: from 45 km north the sail is 1.0, from 35 km north it is 0.5. *)
Lemma sail_throttling_scenario_witness :
  (dist_to flat_distance 0 north_45 (new_checkpoint 0 0 10) = 45
   ∧ run flat_distance second_leg 0 1 0 north_45 0 20 (0, 1) calm open_sea
     = Some (second_leg, steer (Location.mk 0 0) 1.0)
   ∧ Instructions.sail (steer (Location.mk 0 0) 1.0) = Some 1.0)
  ∧ (dist_to flat_distance 0 north_35 (new_checkpoint 0 0 10) = 35
     ∧ run flat_distance second_leg 0 1 0 north_35 0 20 (0, 1) calm open_sea
       = Some (second_leg, steer (Location.mk 0 0) 0.5)
     ∧ Instructions.sail (steer (Location.mk 0 0) 0.5) = Some 0.5).
Proof.
  split; (split; [reflexivity|]); (split; [reflexivity|]).
  - apply (sail_throttling_scenario flat_distance second_leg 0 0 north_45 0 (0, 1)
             calm open_sea second_leg (steer (Location.mk 0 0) 1.0) 1
             (new_checkpoint 0 0 10)); reflexivity.
  - apply (sail_throttling_scenario flat_distance second_leg 0 0 north_35 0 (0, 1)
             calm open_sea second_leg (steer (Location.mk 0 0) 0.5) 1
             (new_checkpoint 0 0 10)); reflexivity.
Defined.

(** A tick on [finished], 22 km from the last mark: no location, and the
    sail computed for the last mark. *)
Lemma all_reached_no_location_witness :
  run flat_distance finished 0 1 0 0.2 0 20 (0, 1) calm open_sea
    = Some (finished, sail_only 0.5)
  ∧ Instructions.location (sail_only 0.5) = None
  ∧ Instructions.sail (sail_only 0.5) =
      sail_heuristic flat_distance 1 0 0.2 20 <$> last (course finished).
Proof.
  split; [reflexivity|].
  apply (all_reached_no_location flat_distance finished 0 1 0 0.2 0 20 (0, 1)
           calm open_sea finished (sail_only 0.5)); [|reflexivity].
  repeat constructor.
Defined.

(** The same tick under two different pairs of queries. *)
Lemma queries_do_not_interfere_witness :
  run flat_distance two_marks 0 1 0 10 0 20 (0, 1) calm open_sea
  = run flat_distance two_marks 0 1 0 10 0 20 (0, 1) storm land.
Proof.
  apply (queries_do_not_interfere flat_distance two_marks 0 1 0 10 0 20 (0, 1)
           calm open_sea storm land); eexists; reflexivity.
Defined.

(** A tick that changes both flags of [close_marks] and nothing else. *)
Lemma run_frame_witness :
  team close_marks_done = team close_marks
  ∧ length (course close_marks_done) = length (course close_marks)
  ∧ ∀ i ch', course close_marks_done !! i = Some ch' →
      ∃ ch, course close_marks !! i = Some ch
        ∧ Checkpoint.latitude ch' = Checkpoint.latitude ch
        ∧ Checkpoint.longitude ch' = Checkpoint.longitude ch
        ∧ Checkpoint.radius ch' = Checkpoint.radius ch.
Proof.
  apply (run_frame flat_distance close_marks 0 1 0 0 0 20 (0, 1) calm open_sea
           close_marks_done (sail_only 0.5)).
  reflexivity.
Defined.

(** Both marks of [close_marks] contain the vessel, a situation the course of
    [Bot.__init__] excludes: there one call sets two flags. *)
Lemma overlapping_marks_both_reached :
  run flat_distance close_marks 0 1 0 0 0 20 (0, 1) calm open_sea
    = Some (close_marks_done, sail_only 0.5)
  ∧ Checkpoint.reached <$> course close_marks = [false; false]
  ∧ Checkpoint.reached <$> course close_marks_done = [true; true].
Proof. repeat split; reflexivity. Qed.

(** ** Further facts about the loop *)

Section ScanMore.

Variable distance_on_surface : float -> float -> float -> float -> float.
Variables (dt longitude latitude speed : float).

Abbreviation within2 := (within distance_on_surface longitude latitude).
Abbreviation passes2 := (passes distance_on_surface longitude latitude).
Abbreviation check2 := (check_reached distance_on_surface longitude latitude).
Abbreviation heur2 :=
  (sail_heuristic distance_on_surface dt longitude latitude speed).
Abbreviation scan2 := (scan distance_on_surface dt longitude latitude speed).

(** The check leaves a checkpoint as it is when the loop stops at it, and
    when it is reached already. *)
Lemma check_reached_stop ch : passes2 ch = false → check2 ch = ch.
Proof.
  unfold passes, check_reached. intros Hp.
  apply orb_false_iff in Hp as [_ ->]. done.
Qed.

Lemma check_reached_of_reached ch :
  Checkpoint.reached ch = true → check2 ch = ch.
Proof.
  unfold check_reached. intros Hr. destruct (within2 ch); [|done].
  destruct ch as [lat lon r b]. simpl in Hr. by subst b.
Qed.

(** Checking twice is checking once, and a checked checkpoint is passed
    exactly when the unchecked one is. *)
Lemma check_reached_idemp ch : check2 (check2 ch) = check2 ch.
Proof.
  destruct ch as [lat lon r b]. unfold check_reached, within, dist_to. simpl.
  destruct (_ <? r) eqn:Hw; simpl; by rewrite Hw.
Qed.

Lemma passes_check_reached ch : passes2 (check2 ch) = passes2 ch.
Proof.
  destruct ch as [lat lon r b]. unfold passes, check_reached, within, dist_to.
  simpl. destruct (_ <? r) eqn:Hw; simpl; rewrite ?Hw; by destruct b.
Qed.

Lemma sail_heuristic_check_reached ch : heur2 (check2 ch) = heur2 ch.
Proof. unfold check_reached. by destruct (within2 ch). Qed.

(** Running the loop again on the course it left, from the same
    instructions, changes nothing. *)
Lemma scan_idemp course instructions :
  scan2 (scan2 course instructions).1 instructions = scan2 course instructions.
Proof.
  revert instructions.
  induction course as [|ch rest IH]; intros instructions; [done|].
  rewrite (scan_cons _ _ _ _ _ ch rest). cbv zeta.
  destruct (passes2 ch) eqn:Hp; simpl fst.
  - rewrite scan_cons. cbv zeta.
    rewrite passes_check_reached, Hp, check_reached_idemp,
      sail_heuristic_check_reached, IH.
    done.
  - rewrite (check_reached_stop _ Hp), scan_cons. cbv zeta.
    by rewrite Hp, (check_reached_stop _ Hp).
Qed.

(** The loop writes no directive other than [sail] and [location]. *)
Lemma scan_other_directives course instructions :
  Instructions.heading (scan2 course instructions).2 = Instructions.heading instructions
  ∧ Instructions.vector (scan2 course instructions).2 = Instructions.vector instructions
  ∧ Instructions.left (scan2 course instructions).2 = Instructions.left instructions
  ∧ Instructions.right (scan2 course instructions).2 = Instructions.right instructions.
Proof.
  revert instructions.
  induction course as [|ch rest IH]; intros instructions; [done|].
  rewrite scan_cons. cbv zeta. destruct (passes2 ch); simpl; [|done].
  apply (IH (Instructions.set_sail instructions (heur2 ch))).
Qed.

(** When the loop stops at a checkpoint, it returns its location. *)
Lemma scan_location_active course instructions k ch :
  list_find (λ ch, passes2 ch = false) course = Some (k, ch) →
  Instructions.location (scan2 course instructions).2 = Some (location_of ch).
Proof.
  revert instructions k.
  induction course as [|c rest IH]; intros instructions k; [done|].
  rewrite scan_cons. cbv zeta. cbn [list_find].
  destruct (passes2 c) eqn:Hp; case_decide; try done.
  - destruct (list_find _ rest) as [[k' ch']|] eqn:Hfind; [|done].
    simpl. intros [= <- <-]. by eapply IH.
  - by intros [= <- <-].
Qed.

(** When the loop runs to the end of the course, it leaves the location as
    it was. *)
Lemma scan_location_none course instructions :
  list_find (λ ch, passes2 ch = false) course = None →
  Instructions.location (scan2 course instructions).2
  = Instructions.location instructions.
Proof.
  revert instructions.
  induction course as [|c rest IH]; intros instructions; [done|].
  rewrite scan_cons. cbv zeta. cbn [list_find].
  destruct (passes2 c) eqn:Hp; case_decide; try done.
  destruct (list_find _ rest) as [[k' ch']|] eqn:Hfind; [done|].
  intros _. simpl. by rewrite IH.
Qed.

(** A course whose checkpoints are all reached is left as it is. *)
Lemma scan_all_reached_course course instructions :
  Forall (λ ch, Checkpoint.reached ch = true) course →
  (scan2 course instructions).1 = course.
Proof.
  intros Hall. revert instructions.
  induction Hall as [|ch rest Hch Hrest IH]; intros instructions; [done|].
  rewrite scan_cons. cbv zeta. unfold passes. rewrite Hch. simpl.
  by rewrite IH, (check_reached_of_reached _ Hch).
Qed.

(** The course is left as it is when the vessel is outside the first
    unreached checkpoint. *)
Lemma scan_outside_active course instructions k ch :
  first_unreached course = Some (k, ch) →
  within2 ch = false →
  (scan2 course instructions).1 = course.
Proof.
  unfold first_unreached. revert instructions k.
  induction course as [|c rest IH]; intros instructions k; [done|].
  rewrite scan_cons. cbv zeta. cbn [list_find]. unfold passes.
  destruct (Checkpoint.reached c) eqn:Hc; case_decide; try done; simpl.
  - destruct (list_find _ rest) as [[k' ch']|] eqn:Hfind; [|done].
    simpl. intros [= <- <-] Hw.
    by rewrite (IH _ k'), (check_reached_of_reached _ Hc).
  - intros [= <- <-] Hw. rewrite Hw. simpl.
    unfold check_reached. by rewrite Hw.
Qed.

(** The loop keeps the flags a run of reached checkpoints followed by
    unreached ones. *)
Lemma reached_prefix_of_unreached (course : list Checkpoint.t) :
  forallb (λ c, negb (Checkpoint.reached c)) course = true →
  reached_prefix course = true.
Proof.
  destruct course as [|c rest]; [done|]. simpl.
  intros [Hc Hrest]%andb_true_iff. by destruct (Checkpoint.reached c).
Qed.

Lemma scan_reached_prefix course instructions :
  reached_prefix course = true →
  reached_prefix (scan2 course instructions).1 = true.
Proof.
  revert instructions.
  induction course as [|c rest IH]; intros instructions; [done|].
  rewrite scan_cons. cbv zeta. cbn [reached_prefix].
  destruct (passes2 c) eqn:Hp; cbn [fst reached_prefix].
  - rewrite reached_check_reached, Hp.
    destruct (Checkpoint.reached c); intros Hrest.
    + by apply IH.
    + by apply IH, reached_prefix_of_unreached.
  - by rewrite (check_reached_stop _ Hp).
Qed.

End ScanMore.

(** ** Further IEEE 754 facts: a zero jump, and the sign of the speed *)

(** A positive finite time step times a speed of zero is zero. *)
Lemma mul_zero_positive_finite (x : float) :
  positive_finite x = true → x * 0 = 0.
Proof.
  unfold positive_finite. rewrite andb_true_iff, !ltb_spec.
  rewrite Prim2SF_zero, Prim2SF_infinity. intros [H0 Hinf].
  destruct (SF_positive_finite _ H0 Hinf) as (m & e & Hx).
  apply Prim2SF_inj. by rewrite mul_spec, Hx.
Qed.

(** A positive finite radius divided by zero is plus infinity. *)
Lemma div_zero_positive_finite (r : float) :
  positive_finite r = true → r / 0 = infinity.
Proof.
  unfold positive_finite. rewrite andb_true_iff, !ltb_spec.
  rewrite Prim2SF_zero, Prim2SF_infinity. intros [H0 Hinf].
  destruct (SF_positive_finite _ H0 Hinf) as (m & e & Hr).
  apply Prim2SF_inj. by rewrite div_spec, Hr.
Qed.

(** The norm of a scalar does not see its sign. *)
Lemma np_linalg_norm_opp (x : float) : np_linalg_norm (- x) = np_linalg_norm x.
Proof.
  unfold np_linalg_norm. f_equal. apply Prim2SF_inj.
  rewrite !mul_spec, opp_spec.
  by destruct (Prim2SF x) as [[]|[]| |[] m e].
Qed.

(** The sail heuristic never gives more than 1, whatever the inputs. *)
Lemma sail_heuristic_le_one distance_on_surface dt longitude latitude speed ch :
  (1 <? sail_heuristic distance_on_surface dt longitude latitude speed ch) = false.
Proof.
  unfold sail_heuristic. destruct (_ <? _ + _); [|done].
  unfold py_min. by destruct (1 <? Checkpoint.radius ch / _) eqn:Hlt.
Qed.

(** With a jump of zero the sail heuristic gives 1 on a checkpoint of
    positive finite radius. *)
Lemma sail_heuristic_at_rest distance_on_surface dt longitude latitude ch :
  positive_finite dt = true →
  positive_finite (Checkpoint.radius ch) = true →
  sail_heuristic distance_on_surface dt longitude latitude 0 ch = 1.
Proof.
  intros Hdt Hr. unfold sail_heuristic, jump.
  change (np_linalg_norm 0) with 0.
  rewrite (mul_zero_positive_finite _ Hdt), (div_zero_positive_finite _ Hr).
  by destruct (_ <? _ + _).
Qed.

(** ** Further properties of [Bot.run] *)

Section More.

Variable distance_on_surface : float -> float -> float -> float -> float.

Abbreviation run2 := (run distance_on_surface).
Abbreviation dist2 := (dist_to distance_on_surface).

(** X1 (directives): the instructions returned by a call never carry a
    heading, a vector or a turn to the left or to the right; [sail] and
    [location] are the only directives the bot writes. *)
Theorem run_only_sail_and_location {F M : Type} self t dt longitude latitude
    heading speed vector (forecast : float -> float -> float -> option F)
    (world_map : float -> float -> option M) self' instructions :
  run2 self t dt longitude latitude heading speed vector forecast world_map
    = Some (self', instructions) →
  Instructions.heading instructions = None
  ∧ Instructions.vector instructions = None
  ∧ Instructions.left instructions = None
  ∧ Instructions.right instructions = None.
Proof.
  intros Hrun. apply run_Some in Hrun as [_ ->].
  apply (scan_other_directives distance_on_surface dt longitude latitude speed
           (course self) Instructions.empty).
Qed.

(** X2 (idempotence): a second call with the same inputs, on the bot the
    first call left, changes no flag and returns the same instructions. *)
Theorem run_idempotent {F M : Type} self t dt longitude latitude
    heading speed vector (forecast : float -> float -> float -> option F)
    (world_map : float -> float -> option M) self' instructions :
  run2 self t dt longitude latitude heading speed vector forecast world_map
    = Some (self', instructions) →
  run2 self' t dt longitude latitude heading speed vector forecast world_map
    = Some (self', instructions).
Proof.
  intros Hrun. unfold run in *.
  destruct (forecast _ _ _); [|done]. destruct (world_map _ _); [|done].
  simpl in *.
  destruct (scan _ _ _ _ _ (course self) _) as [cs ins] eqn:Hscan.
  injection Hrun as <- <-. simpl.
  replace cs with
    (scan distance_on_surface dt longitude latitude speed (course self)
       Instructions.empty).1 by (by rewrite Hscan).
  by rewrite scan_idemp, Hscan.
Qed.

(** X3 (sail never above 1): whatever the inputs, negative or zero jump and
    not-a-number distances included, the sail a call returns never compares
    above 1. *)
Theorem sail_never_above_one {F M : Type} self t dt longitude latitude
    heading speed vector (forecast : float -> float -> float -> option F)
    (world_map : float -> float -> option M) self' instructions s :
  run2 self t dt longitude latitude heading speed vector forecast world_map
    = Some (self', instructions) →
  Instructions.sail instructions = Some s →
  (1 <? s) = false.
Proof.
  intros Hrun Hsail. apply run_Some in Hrun as [_ ->].
  destruct (course self) as [|c rest] eqn:Hcourse; [done|].
  destruct (scan_sail_elem distance_on_surface dt longitude latitude speed
              (c :: rest) Instructions.empty) as (ch & _ & Hs); [done|].
  rewrite Hs in Hsail. injection Hsail as <-.
  apply sail_heuristic_le_one.
Qed.

(** X4 (vessel at rest): for a bot built by [Bot.__init__] and driven by any
    calls since, a call with a speed of zero and a positive finite time step
    returns a sail of exactly 1: the division by the zero jump gives
    infinity, which [min] caps. *)
Theorem sail_full_at_rest {F M : Type} start self t dt longitude latitude
    heading vector (forecast : float -> float -> float -> option F)
    (world_map : float -> float -> option M) self' instructions :
  rtc (tick_step distance_on_surface) (Bot_init start) self →
  positive_finite dt = true →
  run2 self t dt longitude latitude heading 0 vector forecast world_map
    = Some (self', instructions) →
  Instructions.sail instructions = Some 1.
Proof.
  intros Hreach Hdt Hrun.
  apply rtc_tick_step_static in Hreach as [_ Hst].
  pose proof (Bot_init_radii start) as Hradii.
  rewrite <- Hst, Forall_fmap, Forall_forall in Hradii.
  assert (course self ≠ []) as Hne by (by intros Hnil; rewrite Hnil in Hst).
  apply run_Some in Hrun as [_ ->].
  destruct (scan_sail_elem distance_on_surface dt longitude latitude 0
              _ Instructions.empty Hne) as (ch & Hin & ->).
  f_equal. apply sail_heuristic_at_rest; [done|]. by apply (Hradii ch).
Qed.

(** X5 (no target means finished): the returned instructions carry no
    location exactly when every checkpoint is reached after the call. *)
Theorem no_location_iff_finished {F M : Type} self t dt longitude latitude
    heading speed vector (forecast : float -> float -> float -> option F)
    (world_map : float -> float -> option M) self' instructions :
  run2 self t dt longitude latitude heading speed vector forecast world_map
    = Some (self', instructions) →
  Instructions.location instructions = None
  ↔ Forall (λ ch, Checkpoint.reached ch = true) (course self').
Proof.
  intros Hrun. apply run_Some in Hrun as [-> ->]. simpl.
  rewrite scan_location_first_unreached by done.
  rewrite fmap_None. unfold first_unreached. rewrite list_find_None.
  split; intros Hall; (eapply Forall_impl; [exact Hall|]); intros ch; simpl;
    by destruct (Checkpoint.reached ch).
Qed.

(** X6 (no progress outside the active checkpoint): when the vessel is not
    closer to the first unreached checkpoint than its radius, the call
    changes nothing in the bot and steers to that checkpoint under the sail
    computed for it. *)
Theorem run_outside_active {F M : Type} self t dt longitude latitude
    heading speed vector (forecast : float -> float -> float -> option F)
    (world_map : float -> float -> option M) self' instructions k ch :
  first_unreached (course self) = Some (k, ch) →
  (dist2 longitude latitude ch <? Checkpoint.radius ch) = false →
  run2 self t dt longitude latitude heading speed vector forecast world_map
    = Some (self', instructions) →
  self' = self
  ∧ instructions =
      steer (location_of ch)
        (sail_heuristic distance_on_surface dt longitude latitude speed ch).
Proof.
  intros Hactive Hout Hrun. apply run_Some in Hrun as [-> ->].
  pose proof (active_checkpoint distance_on_surface longitude latitude
                _ _ _ Hactive Hout) as Hstop.
  split.
  - rewrite (scan_outside_active _ _ _ _ _ _ _ k ch) by done.
    by destruct self.
  - pose proof (scan_other_directives distance_on_surface dt longitude latitude
                  speed (course self) Instructions.empty) as (Hh & Hv & Hl & Hr).
    pose proof (scan_location_active distance_on_surface dt longitude latitude
                  speed _ Instructions.empty _ _ Hstop) as Hloc.
    pose proof (scan_sail_active distance_on_surface dt longitude latitude
                  speed _ Instructions.empty _ _ Hstop) as Hsail.
    destruct (scan _ _ _ _ _ _ _).2 as [loc h v l r s]. simpl in *.
    unfold steer. congruence.
Qed.

(** X7 (progress): when the vessel is closer to the first unreached
    checkpoint than its radius, that checkpoint is reached after the call,
    its other fields unchanged. *)
Theorem run_inside_active {F M : Type} self t dt longitude latitude
    heading speed vector (forecast : float -> float -> float -> option F)
    (world_map : float -> float -> option M) self' instructions k ch :
  first_unreached (course self) = Some (k, ch) →
  (dist2 longitude latitude ch <? Checkpoint.radius ch) = true →
  run2 self t dt longitude latitude heading speed vector forecast world_map
    = Some (self', instructions) →
  course self' !! k = Some (Checkpoint.set_reached ch).
Proof.
  intros Hactive Hin Hrun. apply run_Some in Hrun as [-> _]. simpl.
  apply list_find_Some in Hactive as (Hk & Hr & Hbefore).
  rewrite scan_lookup, Hk. simpl. f_equal.
  assert (forallb (passes distance_on_surface longitude latitude)
            (take k (course self)) = true) as ->.
  { apply forallb_take_lookup. intros j c Hj Hc. unfold passes.
    destruct (Checkpoint.reached c) eqn:Hrc; [done|].
    by destruct (Hbefore j c Hc Hj). }
  unfold check_reached, within. fold (dist2 longitude latitude ch).
  by rewrite Hin.
Qed.

(** One call on a bot whose checkpoints are all reached leaves it as it is. *)
Lemma tick_step_finished self self' :
  tick_step distance_on_surface self self' →
  Forall (λ ch, Checkpoint.reached ch = true) (course self) →
  self' = self.
Proof.
  intros (F & M & t & dt & lon & lat & h & sp & v & f & w & ins & Hrun) Hall.
  apply run_Some in Hrun as [-> _].
  rewrite scan_all_reached_course by done. by destruct self.
Qed.

(** X8 (the finish is final): once every checkpoint is reached, no sequence
    of calls changes the bot any more. *)
Theorem finished_is_final self self' :
  rtc (tick_step distance_on_surface) self self' →
  Forall (λ ch, Checkpoint.reached ch = true) (course self) →
  self' = self.
Proof.
  induction 1 as [b|b1 b2 b3 Hstep _ IH]; intros Hall; [done|].
  apply tick_step_finished in Hstep as ->; [|done]. by apply IH.
Qed.

(** X9 (the flags stay a prefix): if the reached checkpoints of the course
    come before all the unreached ones at entry, they still do after the
    call. *)
Theorem run_keeps_reached_prefix {F M : Type} self t dt longitude latitude
    heading speed vector (forecast : float -> float -> float -> option F)
    (world_map : float -> float -> option M) self' instructions :
  reached_prefix (course self) = true →
  run2 self t dt longitude latitude heading speed vector forecast world_map
    = Some (self', instructions) →
  reached_prefix (course self') = true.
Proof.
  intros Hpre Hrun. apply run_Some in Hrun as [-> _]. simpl.
  by apply scan_reached_prefix.
Qed.

Lemma tick_step_reached_prefix self self' :
  tick_step distance_on_surface self self' →
  reached_prefix (course self) = true →
  reached_prefix (course self') = true.
Proof.
  intros (F & M & t & dt & lon & lat & h & sp & v & f & w & ins & Hrun) Hpre.
  apply run_Some in Hrun as [-> _]. simpl. by apply scan_reached_prefix.
Qed.

(** X10 (checkpoints are taken in order): in every state a bot built by
    [Bot.__init__] can be brought to by calls of [run], the reached
    checkpoints come before all the unreached ones. *)
Theorem reachable_reached_prefix start self :
  rtc (tick_step distance_on_surface) (Bot_init start) self →
  reached_prefix (course self) = true.
Proof.
  assert (∀ b b', rtc (tick_step distance_on_surface) b b' →
            reached_prefix (course b) = true →
            reached_prefix (course b') = true) as Hinv.
  { induction 1 as [b|b1 b2 b3 Hstep _ IH]; intros Hpre; [done|].
    by apply IH, (tick_step_reached_prefix b1). }
  intros Hreach. by apply (Hinv _ _ Hreach).
Qed.

(** X11 (only the magnitude of the speed counts): a call with the speed
    negated returns the same result. *)
Theorem run_speed_sign {F M : Type} self t dt longitude latitude
    heading speed vector (forecast : float -> float -> float -> option F)
    (world_map : float -> float -> option M) :
  run2 self t dt longitude latitude heading (- speed) vector forecast world_map
  = run2 self t dt longitude latitude heading speed vector forecast world_map.
Proof.
  unfold run.
  assert (∀ cs ins,
            scan distance_on_surface dt longitude latitude (- speed) cs ins
            = scan distance_on_surface dt longitude latitude speed cs ins) as Hscan.
  { induction cs as [|c rest IH]; intros ins; [done|].
    simpl. unfold sail_heuristic, jump. rewrite np_linalg_norm_opp.
    destruct (negb _); [done|]. by rewrite IH. }
  by rewrite Hscan.
Qed.

(** X12 (the target): when a call returns a location, it is the position of a
    checkpoint of the course that was unreached at entry and that the vessel
    is not inside of, and the returned sail is the one computed for that
    checkpoint. *)
Theorem target_is_unreached_outside {F M : Type} self t dt longitude latitude
    heading speed vector (forecast : float -> float -> float -> option F)
    (world_map : float -> float -> option M) self' instructions loc :
  run2 self t dt longitude latitude heading speed vector forecast world_map
    = Some (self', instructions) →
  Instructions.location instructions = Some loc →
  ∃ k ch, course self !! k = Some ch
    ∧ Checkpoint.reached ch = false
    ∧ (dist2 longitude latitude ch <? Checkpoint.radius ch) = false
    ∧ loc = location_of ch
    ∧ Instructions.sail instructions
      = Some (sail_heuristic distance_on_surface dt longitude latitude speed ch).
Proof.
  intros Hrun Hloc. apply run_Some in Hrun as [_ ->].
  destruct (list_find (λ c, passes distance_on_surface longitude latitude c = false)
              (course self)) as [[k ch]|] eqn:Hfind.
  - rewrite (scan_location_active _ _ _ _ _ _ _ _ _ Hfind) in Hloc.
    injection Hloc as <-.
    pose proof (scan_sail_active _ dt _ _ speed _ Instructions.empty _ _ Hfind)
      as Hsail.
    apply list_find_Some in Hfind as (Hk & Hp & _).
    apply orb_false_iff in Hp as [Hr Hw].
    by exists k, ch.
  - by rewrite (scan_location_none _ _ _ _ _ _ _ Hfind) in Hloc.
Qed.

(** X13 (empty course): the returned instructions leave the sail unset
    exactly when the course is empty, and on an empty course the call
    returns [Instructions()] untouched and leaves the bot as it was. *)
Theorem sail_unset_iff_empty_course {F M : Type} self t dt longitude latitude
    heading speed vector (forecast : float -> float -> float -> option F)
    (world_map : float -> float -> option M) self' instructions :
  run2 self t dt longitude latitude heading speed vector forecast world_map
    = Some (self', instructions) →
  (Instructions.sail instructions = None ↔ course self = [])
  ∧ (course self = [] → self' = self ∧ instructions = Instructions.empty).
Proof.
  intros Hrun. apply run_Some in Hrun as [-> ->]. split; [split|].
  - intros Hnone. destruct (course self) as [|c rest] eqn:Hc; [done|].
    destruct (scan_sail_elem distance_on_surface dt longitude latitude speed
                (c :: rest) Instructions.empty) as (ch & _ & Hs); [done|].
    by rewrite Hs in Hnone.
  - by intros ->.
  - intros Hnil. rewrite Hnil. simpl. split; [|done].
    destruct self as [tm cs]. simpl in Hnil. by subst cs.
Qed.

End More.

(** ** The further properties on concrete ticks *)

(** The tick that takes [two_marks] to [second_leg]. *)
Lemma run_only_sail_and_location_witness :
  run flat_distance two_marks 0 1 0 10 0 20 (0, 1) calm open_sea
    = Some (second_leg, steer (Location.mk 0 0) 1)
  ∧ Instructions.heading (steer (Location.mk 0 0) 1) = None
  ∧ Instructions.vector (steer (Location.mk 0 0) 1) = None
  ∧ Instructions.left (steer (Location.mk 0 0) 1) = None
  ∧ Instructions.right (steer (Location.mk 0 0) 1) = None.
Proof.
  split; [reflexivity|].
  apply (run_only_sail_and_location flat_distance two_marks 0 1 0 10 0 20 (0, 1)
           calm open_sea second_leg (steer (Location.mk 0 0) 1)).
  reflexivity.
Defined.

(** The tick that reaches both of [close_marks], and the same tick again. *)
Lemma run_idempotent_witness :
  run flat_distance close_marks 0 1 0 0 0 20 (0, 1) calm open_sea
    = Some (close_marks_done, sail_only 0.5)
  ∧ run flat_distance close_marks_done 0 1 0 0 0 20 (0, 1) calm open_sea
    = Some (close_marks_done, sail_only 0.5).
Proof.
  split; [reflexivity|].
  apply (run_idempotent flat_distance close_marks 0 1 0 0 0 20 (0, 1)
           calm open_sea close_marks_done (sail_only 0.5)).
  reflexivity.
Defined.

(** A negative time step on top of the last mark of [second_leg]: the sail
    is -2, below the unit interval but not above 1. *)
Lemma sail_never_above_one_witness :
  run flat_distance second_leg 0 (-1) 0 0 0 5 (0, 1) calm open_sea
    = Some (finished, sail_only (-2))
  ∧ (1 <? -2) = false.
Proof.
  split; [reflexivity|].
  apply (sail_never_above_one flat_distance second_leg 0 (-1) 0 0 0 5 (0, 1)
           calm open_sea finished (sail_only (-2)) (-2)); reflexivity.
Defined.

(** A fresh bot at rest 56 km from its first checkpoint, inside twice the
    radius, so that the division by the zero jump is evaluated. *)
Lemma sail_full_at_rest_witness :
  positive_finite 1 = true
  ∧ run flat_distance (Bot_init les_sables) 0 1 (-11.264905) 44.3 0 0 (0, 1)
      calm open_sea
    = Some (Bot_init les_sables, steer (Location.mk (-11.264905) 43.797109) 1)
  ∧ Instructions.sail (steer (Location.mk (-11.264905) 43.797109) 1) = Some 1.
Proof.
  split; [reflexivity|]. split; [reflexivity|].
  apply (sail_full_at_rest flat_distance les_sables (Bot_init les_sables)
           0 1 (-11.264905) 44.3 0 (0, 1) calm open_sea
           (Bot_init les_sables) (steer (Location.mk (-11.264905) 43.797109) 1));
    [apply rtc_refl|reflexivity|reflexivity].
Defined.

(** The tick that finishes [second_leg] returns no location. *)
Lemma no_location_iff_finished_witness :
  run flat_distance second_leg 0 1 0 0 0 20 (0, 1) calm open_sea
    = Some (finished, sail_only 0.5)
  ∧ (Instructions.location (sail_only 0.5) = None
     ↔ Forall (λ ch, Checkpoint.reached ch = true) (course finished)).
Proof.
  split; [reflexivity|].
  apply (no_location_iff_finished flat_distance second_leg 0 1 0 0 0 20 (0, 1)
           calm open_sea finished (sail_only 0.5)).
  reflexivity.
Defined.

(** [second_leg] from 45 km north of its active mark. *)
Lemma run_outside_active_witness :
  first_unreached (course second_leg) = Some (1%nat, new_checkpoint 0 0 10)
  ∧ (dist_to flat_distance 0 north_45 (new_checkpoint 0 0 10) <? 10) = false
  ∧ run flat_distance second_leg 0 1 0 north_45 0 20 (0, 1) calm open_sea
    = Some (second_leg, steer (Location.mk 0 0) 1)
  ∧ second_leg = second_leg
  ∧ steer (Location.mk 0 0) 1 =
      steer (location_of (new_checkpoint 0 0 10))
        (sail_heuristic flat_distance 1 0 north_45 20 (new_checkpoint 0 0 10)).
Proof.
  split; [reflexivity|]. split; [reflexivity|]. split; [reflexivity|].
  apply (run_outside_active flat_distance second_leg 0 1 0 north_45 0 20 (0, 1)
           calm open_sea second_leg (steer (Location.mk 0 0) 1) 1
           (new_checkpoint 0 0 10)); reflexivity.
Defined.

(** [two_marks] with the vessel on the first mark. *)
Lemma run_inside_active_witness :
  first_unreached (course two_marks) = Some (0%nat, new_checkpoint 0 10 10)
  ∧ (dist_to flat_distance 0 10 (new_checkpoint 0 10 10) <? 10) = true
  ∧ run flat_distance two_marks 0 1 0 10 0 20 (0, 1) calm open_sea
    = Some (second_leg, steer (Location.mk 0 0) 1)
  ∧ course second_leg !! 0%nat
    = Some (Checkpoint.set_reached (new_checkpoint 0 10 10)).
Proof.
  split; [reflexivity|]. split; [reflexivity|]. split; [reflexivity|].
  apply (run_inside_active flat_distance two_marks 0 1 0 10 0 20 (0, 1)
           calm open_sea second_leg (steer (Location.mk 0 0) 1) 0
           (new_checkpoint 0 10 10)); reflexivity.
Defined.

(** A tick on [finished]. *)
Lemma finished_is_final_witness :
  rtc (tick_step flat_distance) finished finished ∧ finished = finished.
Proof.
  assert (rtc (tick_step flat_distance) finished finished) as Hsteps.
  { apply rtc_once.
    exists (float * float)%type, float, 0, 1, 0, 0.2, 0, 20, (0, 1), calm, open_sea,
      (sail_only 0.5).
    reflexivity. }
  split; [exact Hsteps|].
  apply (finished_is_final flat_distance finished finished Hsteps).
  repeat constructor.
Defined.

(** The tick that takes [two_marks] to [second_leg]. *)
Lemma run_keeps_reached_prefix_witness :
  reached_prefix (course two_marks) = true
  ∧ run flat_distance two_marks 0 1 0 10 0 20 (0, 1) calm open_sea
    = Some (second_leg, steer (Location.mk 0 0) 1)
  ∧ reached_prefix (course second_leg) = true.
Proof.
  split; [reflexivity|]. split; [reflexivity|].
  apply (run_keeps_reached_prefix flat_distance two_marks 0 1 0 10 0 20 (0, 1)
           calm open_sea second_leg (steer (Location.mk 0 0) 1)); reflexivity.
Defined.

(** A fresh bot whose first tick finds the vessel on the first checkpoint,
    followed by a tick at the start position: the first flag is set, the
    twenty others are not. *)
Lemma reachable_reached_prefix_witness :
  rtc (tick_step flat_distance) (Bot_init les_sables) first_leg_done
  ∧ Checkpoint.reached <$> course first_leg_done = true :: replicate 20 false
  ∧ reached_prefix (course first_leg_done) = true.
Proof.
  assert (rtc (tick_step flat_distance) (Bot_init les_sables) first_leg_done)
    as Hsteps.
  { apply (rtc_l _ _ first_leg_done).
    - exists (float * float)%type, float, 0, 1, (-11.264905), 43.797109, 0, 20,
        (0, 1), calm, open_sea, (steer (Location.mk (-57.16281) 16.79314) 1).
      reflexivity.
    - apply rtc_once.
      exists (float * float)%type, float, 1, 1, (-1.81), 46.494, 0, 20,
        (0, 1), calm, open_sea, (steer (Location.mk (-57.16281) 16.79314) 1).
      reflexivity. }
  split; [exact Hsteps|]. split; [reflexivity|].
  apply (reachable_reached_prefix flat_distance les_sables first_leg_done Hsteps).
Defined.

(** [two_marks] with the vessel on the first mark: the target is the second
    mark, unreached and 1112 km away. *)
Lemma target_is_unreached_outside_witness :
  run flat_distance two_marks 0 1 0 10 0 20 (0, 1) calm open_sea
    = Some (second_leg, steer (Location.mk 0 0) 1)
  ∧ ∃ k ch, course two_marks !! k = Some ch
      ∧ Checkpoint.reached ch = false
      ∧ (dist_to flat_distance 0 10 ch <? Checkpoint.radius ch) = false
      ∧ Location.mk 0 0 = location_of ch
      ∧ Instructions.sail (steer (Location.mk 0 0) 1)
        = Some (sail_heuristic flat_distance 1 0 10 20 ch).
Proof.
  split; [reflexivity|].
  apply (target_is_unreached_outside flat_distance two_marks 0 1 0 10 0 20 (0, 1)
           calm open_sea second_leg (steer (Location.mk 0 0) 1) (Location.mk 0 0));
    reflexivity.
Defined.

(** A bot with an empty course gets [Instructions()] back. *)
Lemma sail_unset_iff_empty_course_witness :
  run flat_distance (mkBot "TeamName" []) 0 1 0 0 0 20 (0, 1) calm open_sea
    = Some (mkBot "TeamName" [], Instructions.empty)
  ∧ (Instructions.sail Instructions.empty = None
     ↔ course (mkBot "TeamName" []) = [])
  ∧ (course (mkBot "TeamName" []) = [] →
     mkBot "TeamName" [] = mkBot "TeamName" []
     ∧ Instructions.empty = Instructions.empty).
Proof.
  split; [reflexivity|].
  apply (sail_unset_iff_empty_course flat_distance (mkBot "TeamName" [])
           0 1 0 0 0 20 (0, 1) calm open_sea (mkBot "TeamName" [])
           Instructions.empty).
  reflexivity.
Defined.

(** ** The call never raises *)

(** The division raises exactly between two Python numbers on a zero
    divisor. *)
Lemma num_truediv_raises a b e :
  num_truediv a b = Raise e
  ↔ kind_of a = Py ∧ kind_of b = Py ∧ (val b =? 0) = true ∧ e = ZeroDivisionError.
Proof.
  unfold num_truediv.
  destruct (kind_of a), (kind_of b); simpl;
    try (split; [done|by intros (? & ? & _)]).
  destruct (val b =? 0); split.
  - by intros [= <-].
  - by intros (_ & _ & _ & ->).
  - done.
  - by intros (_ & _ & ? & _).
Qed.

Lemma promote_numpy_r k : promote k Np = Np.
Proof. by destruct k. Qed.

Section NeverRaises.

Variable distance_on_surface : float -> float -> float -> float -> float.
Variables (dt longitude latitude speed : num).

(** The jump is a [numpy.float64] whatever the kinds of [dt] and [speed]. *)
Lemma jump_is_numpy :
  kind_of (num_mul dt (num_linalg_norm speed)) = Np.
Proof. simpl. by destruct (kind_of dt). Qed.

(** So the division of the sail heuristic is numpy's: the heuristic returns,
    with the value of the exception-free model. *)
Lemma sail_heuristic_py_ok ch :
  sail_heuristic_py distance_on_surface dt longitude latitude speed ch
  = Ok (sail_heuristic distance_on_surface (val dt) (val longitude)
          (val latitude) (val speed) ch).
Proof.
  unfold sail_heuristic_py, sail_heuristic, dist_to, jump, py_min, num_min.
  cbv zeta. unfold num_truediv. rewrite jump_is_numpy, promote_numpy_r.
  unfold num_lt, num_add, num_mul, num_linalg_norm. cbn [val mbind result_bind].
  destruct (_ <? _ + _); [|done]. by destruct (1 <? _).
Qed.

End NeverRaises.

(** The loop of the model with exceptions never raises, and agrees with the
    exception-free loop. *)
Lemma scan_py_ok distance_on_surface dt longitude latitude speed course instructions :
  scan_py distance_on_surface dt longitude latitude speed course instructions
  = Ok (scan distance_on_surface (val dt) (val longitude) (val latitude)
          (val speed) course instructions).
Proof.
  revert instructions.
  induction course as [|ch rest IH]; intros instructions; [done|].
  cbn [scan_py scan]. rewrite sail_heuristic_py_ok. cbn [mbind result_bind].
  destruct (negb _); [done|].
  rewrite IH. cbn [mbind result_bind]. by destruct (scan _ _ _ _ _ rest _).
Qed.

Section NoException.

Variable distance_on_surface : float -> float -> float -> float -> float.

(** C7 (totality): for all numeric inputs, Python floats or numpy floats of
    any value, in or out of range, a call whose two queries return gives
    back instructions.  The division [radius / jump] cannot abort it: it
    would raise [ZeroDivisionError] between Python numbers, but [jump] is a
    [numpy.float64].  The result is that of the exception-free model. *)
Theorem run_never_raises {F M : Type} self t dt longitude latitude
    heading speed vector (forecast : float -> float -> float -> option F)
    (world_map : float -> float -> option M) :
  is_Some (forecast (val latitude) (val longitude) 0) →
  is_Some (world_map (val latitude) (val longitude)) →
  ∃ self' instructions,
    run_py distance_on_surface self t dt longitude latitude heading speed
      vector forecast world_map = Ok (self', instructions)
    ∧ run distance_on_surface self (val t) (val dt) (val longitude)
        (val latitude) (val heading) (val speed) (val vector.1, val vector.2)
        forecast world_map = Some (self', instructions).
Proof.
  intros Hf Hm. do 2 eexists. rewrite run_returns by done.
  split; [|reflexivity].
  destruct Hf as [f Hf], Hm as [m Hm]. unfold run_py. rewrite Hf, Hm.
  rewrite scan_py_ok. cbn [mbind result_bind].
  by destruct (scan _ _ _ _ _ _ _).
Qed.



End NoException.

(** Every number a Python float, [dt] and [speed] zero, the vessel on top of
    [close_marks], so that [radius / jump] divides by zero; then a tick far
    out of range with numpy numbers. *)
Lemma run_never_raises_witness :
  (∃ self' instructions,
     run_py flat_distance close_marks (Num Py 0) (Num Py 0) (Num Py 0) (Num Py 0)
       (Num Py 0) (Num Py 0) (Num Py 0, Num Py 0) calm open_sea
     = Ok (self', instructions)
     ∧ run flat_distance close_marks 0 0 0 0 0 0 (0, 0) calm open_sea
       = Some (self', instructions))
  ∧ (∃ self' instructions,
       run_py flat_distance close_marks (Num Np 0) (Num Np 1) (Num Np 1000)
         (Num Np (-500)) (Num Np 720) (Num Np (-3)) (Num Np 0, Num Np 0)
         calm open_sea
       = Ok (self', instructions)
       ∧ run flat_distance close_marks 0 1 1000 (-500) 720 (-3) (0, 0)
           calm open_sea
         = Some (self', instructions)).
Proof.
  split.
  - apply (run_never_raises flat_distance close_marks (Num Py 0) (Num Py 0)
             (Num Py 0) (Num Py 0) (Num Py 0) (Num Py 0) (Num Py 0, Num Py 0)
             calm open_sea); eexists; reflexivity.
  - apply (run_never_raises flat_distance close_marks (Num Np 0) (Num Np 1)
             (Num Np 1000) (Num Np (-500)) (Num Np 720) (Num Np (-3))
             (Num Np 0, Num Np 0) calm open_sea); eexists; reflexivity.
Defined.

